(** * A shallow embedding of benchexec/tablegenerator/statisticstex.py

    The LaTeX command table generator: sanitising of name parts
    ([LatexCommand.format_command_part]), the two collision resolvers of
    [write_tex_command_table] and [_provide_latex_commands], and the walker
    [_column_statistic_to_latex_command].

    Strings are Rocq strings of ASCII characters.  A Python list of run-set
    objects is modelled as a list of object identities into a heap, so that
    [id(run_set)] is observable as in the source. *)

From Stdlib Require Import String Ascii List Arith Bool Lia QArith.
Import ListNotations.

Close Scope Q_scope.
Local Open Scope string_scope.
Local Open Scope list_scope.
Local Open Scope nat_scope.

(** ** Character helpers (Python [str] operations on ASCII) *)

Definition is_ascii_letter (c : ascii) : bool :=
  let n := nat_of_ascii c in
  ((97 <=? n) && (n <=? 122)) || ((65 <=? n) && (n <=? 90)).

Definition is_lower (c : ascii) : bool :=
  let n := nat_of_ascii c in (97 <=? n) && (n <=? 122).

Definition is_upper (c : ascii) : bool :=
  let n := nat_of_ascii c in (65 <=? n) && (n <=? 90).

(** [str.upper] on one ASCII character. *)
Definition char_upper (c : ascii) : ascii :=
  if is_lower c then ascii_of_nat (nat_of_ascii c - 32) else c.

Definition newline : string := String (ascii_of_nat 10) EmptyString.

(** ** The [util] module (not part of this file's sources) *)

(** Modelled from the spec: [util.cap_first_letter], the external
    "capitalizeFirstLetter(word) -> word" capability: the first character
    upper-cased, the rest unchanged; the empty word stays empty. *)
Definition cap_first_letter (w : string) : string :=
  match w with
  | EmptyString => EmptyString
  | String c r => String (char_upper c) r
  end.

Fixpoint repeat_string (n : nat) (s : string) : string :=
  match n with
  | O => EmptyString
  | S n' => s ++ repeat_string n' s
  end.

Definition roman_table : list (nat * string) :=
  [(1000, "M"); (900, "CM"); (500, "D"); (400, "CD"); (100, "C"); (90, "XC");
   (50, "L"); (40, "XL"); (10, "X"); (9, "IX"); (5, "V"); (4, "IV"); (1, "I")].

Fixpoint roman_go (tbl : list (nat * string)) (n : nat) : string :=
  match tbl with
  | [] => EmptyString
  | (v, s) :: tbl' => repeat_string (n / v) s ++ roman_go tbl' (n mod v)
  end.

(** Modelled from the spec: [util.number_to_roman_string], the external
    "toRomanNumeral(positiveInteger) -> text" capability, as the usual
    greedy spelling in capital Roman numerals. *)
Definition number_to_roman_string (n : nat) : string := roman_go roman_table n.

(** ** [LatexCommand.format_command_part] *)

Definition is_digit19 (c : ascii) : bool :=
  let n := nat_of_ascii c in (49 <=? n) && (n <=? 57).

(** [re.fullmatch("[1-9]+")]: non-empty, every character one of 1..9. *)
Definition all_digits19 (s : string) : bool :=
  match s with
  | EmptyString => false
  | _ => forallb is_digit19 (list_ascii_of_string s)
  end.

(** [int(s)] on a string of decimal digits. *)
Definition decimal_value (s : string) : nat :=
  fold_left (fun acc c => acc * 10 + (nat_of_ascii c - 48))
    (list_ascii_of_string s) 0.

(** [s] without one final newline, if it ends in one. *)
Definition strip_final_newline (s : string) : option string :=
  let l := list_ascii_of_string s in
  match rev l with
  | c :: r => if Ascii.eqb c (ascii_of_nat 10)
              then Some (string_of_list_ascii (rev r)) else None
  | [] => None
  end.

(** [re.sub("^[1-9]+$", roman, name)]: without MULTILINE, [^] matches at the
    start only and [$] at the end or before a final newline, so at most one
    match, the digits, is replaced. *)
Definition roman_subst (name : string) : string :=
  if all_digits19 name then number_to_roman_string (decimal_value name)
  else match strip_final_newline name with
       | Some d => if all_digits19 d
                   then number_to_roman_string (decimal_value d) ++ newline
                   else name
       | None => name
       end.

Fixpoint re_split_go (cur : string) (s : string) : list string :=
  match s with
  | EmptyString => [cur]
  | String c s' =>
      if is_ascii_letter c then re_split_go (cur ++ String c EmptyString) s'
      else cur :: re_split_go EmptyString s'
  end.

(** [re.split("[^a-zA-Z]", name)]: every single non-letter is a separator,
    so empty pieces are kept. *)
Definition re_split_nonletters (s : string) : list string := re_split_go EmptyString s.

Definition format_command_part (name : string) : string :=
  let name := roman_subst name in
  let parts := re_split_nonletters name in
  String.concat EmptyString (map cap_first_letter parts).

Example format_command_part_ex1 : format_command_part "cpu time (s)" = "CpuTimeS".
Proof. reflexivity. Qed.
Example format_command_part_ex2 : format_command_part "19" = "XIX".
Proof. reflexivity. Qed.

(** ** Data model *)

(** [StatValue]: its [__dict__] items, in field order; [None] is an absent
    value.  The statistic values are decimals; they are only ever handed to
    [Column.format_value], so rationals stand for them. *)
Record StatValue := mkStatValue { sv_items : list (string * option Q) }.

(** [ColumnStatistics]: its [__dict__] items, statistic name to [StatValue]. *)
Record ColumnStatistics := mkColumnStatistics
  { cs_items : list (string * option StatValue) }.

(** [Column]: [display_title] and [unit] may be [None]; [format_value] is the
    column's rendering capability (value, format target). *)
Record Column := mkColumn
  { title : string;
    display_title : option string;
    unit : option string;
    format_value : Q -> string -> string }.

(** A run-set result object: [attributes["benchmarkname"]],
    [attributes["niceName"]] and [columns]. *)
Record RunSet := mkRunSet
  { benchmarkname : string; niceName : string; columns : list Column }.

(** [LatexCommand]; [value] holds the text [set_command_value] stored (the
    initial [None] prints as the empty string). *)
Record LatexCommand := mkLatexCommand
  { benchmark_name : string;
    runset_name : string;
    column_title : string;
    column_category : string;
    column_subcategory : string;
    stat_type : string;
    value : string }.

(** Python truthiness of an optional string. *)
Definition py_truthy (o : option string) : bool :=
  match o with
  | Some s => negb (String.eqb s EmptyString)
  | None => false
  end.

(** [LatexCommand(benchmark_name, runset_name)]: the constructor sanitises
    both parts. *)
Definition new_latex_command (b r : string) : LatexCommand :=
  mkLatexCommand (format_command_part b) (format_command_part r)
    EmptyString EmptyString EmptyString EmptyString EmptyString.

(** The part setters: [set_command_part] sanitises its argument. *)
Definition set_column_title (c : LatexCommand) (v : string) : LatexCommand :=
  mkLatexCommand (benchmark_name c) (runset_name c) (format_command_part v)
    (column_category c) (column_subcategory c) (stat_type c) (value c).
Definition set_column_category (c : LatexCommand) (v : string) : LatexCommand :=
  mkLatexCommand (benchmark_name c) (runset_name c) (column_title c)
    (format_command_part v) (column_subcategory c) (stat_type c) (value c).
Definition set_column_subcategory (c : LatexCommand) (v : string) : LatexCommand :=
  mkLatexCommand (benchmark_name c) (runset_name c) (column_title c)
    (column_category c) (format_command_part v) (stat_type c) (value c).
Definition set_stat_type (c : LatexCommand) (v : string) : LatexCommand :=
  mkLatexCommand (benchmark_name c) (runset_name c) (column_title c)
    (column_category c) (column_subcategory c) (format_command_part v) (value c).
Definition set_command_value (c : LatexCommand) (v : string) : LatexCommand :=
  mkLatexCommand (benchmark_name c) (runset_name c) (column_title c)
    (column_category c) (column_subcategory c) (stat_type c) v.

(** The six name parts of a command. *)
Definition command_key (c : LatexCommand) :=
  (benchmark_name c, runset_name c, column_title c, column_category c,
   column_subcategory c, stat_type c).

Definition brace (s : string) : string := "{" ++ s ++ "}".

(** [__repr__] followed by the value, as [to_latex_raw] prints it. *)
Definition to_latex_raw (c : LatexCommand) : string :=
  "\StoreBenchExecResult" ++ brace (benchmark_name c) ++ brace (runset_name c)
  ++ brace (column_title c) ++ brace (column_category c)
  ++ brace (column_subcategory c) ++ brace (stat_type c) ++ brace (value c).

Definition TEX_HEADER : string :=
"% The following definition defines a command for each value.
% The command name is the concatenation of the first six arguments.
% To override this definition, define \StoreBenchExecResult with \newcommand before including this file.
% Arguments: benchmark name, runset name, column title, column category, column subcategory, statistic, value
\providecommand\StoreBenchExecResult[7]{\expandafter\newcommand\csname#1#2#3#4#5#6\endcsname{#7}}%
".

(** ** The collision resolver shared by both loops

    [Counter(keys)] gives the total counts, a [defaultdict(int)] the running
    counts.  One step increments the running count of the key before the
    check; with a total count above one the key gets the suffix number (and
    [logging.warning] is called), otherwise nothing. *)
Section Resolver.
Context {K : Type} (eqb : K -> K -> bool).

Definition counter (ks : list K) (k : K) : nat := length (filter (eqb k) ks).

Definition used_incr (used : K -> nat) (k : K) : K -> nat :=
  fun k' => if eqb k' k then S (used k) else used k'.

Definition resolve_step (totals : K -> nat) (used : K -> nat) (k : K)
  : (K -> nat) * option nat :=
  let used' := used_incr used k in
  (used', if 1 <? totals k then Some (used' k) else None).

(** The steps over a sequence, from the given running counts. *)
Fixpoint resolve_with (totals : K -> nat) (used : K -> nat) (ks : list K)
  : list (option nat) :=
  match ks with
  | [] => []
  | k :: ks' =>
      let (used', d) := resolve_step totals used k in
      d :: resolve_with totals used' ks'
  end.

(** The resolver over a whole sequence: totals counted over it, running
    counts starting at 0.  [Some n] means suffix [number_to_roman_string n]
    and a warning; [None] means the key is kept as it is.  This is the
    column loop of [_provide_latex_commands], whose [Counter] is taken over
    the walked titles; the run-set loop counts its totals over
    [formatted_names] instead (one entry per run-set object), see
    [emitted_commands], and agrees with [resolve] only for distinct
    objects. *)
Definition resolve (ks : list K) : list (option nat) :=
  resolve_with (counter ks) (fun _ => 0) ks.
End Resolver.

Definition pair_eqb (a b : string * string) : bool :=
  String.eqb (fst a) (fst b) && String.eqb (snd a) (snd b).

(** ** [_column_statistic_to_latex_command] *)

(** [str.split("_")]. *)
Fixpoint py_split_go (sep : ascii) (cur : string) (s : string) : list string :=
  match s with
  | EmptyString => [cur]
  | String c s' =>
      if Ascii.eqb c sep then cur :: py_split_go sep EmptyString s'
      else py_split_go sep (cur ++ String c EmptyString) s'
  end.
Definition py_split (sep : ascii) (s : string) : list string :=
  py_split_go sep EmptyString s.

Definition underscore : ascii := "_"%char.

(** [column_parts] after the padding to two parts. *)
Definition column_parts (stat_name : string) : list string :=
  let parts := py_split underscore stat_name in
  if length parts <? 2 then parts ++ [EmptyString] else parts.

(** The deep copy of the command with category and subcategory set. *)
Definition stat_command (init : LatexCommand) (stat_name : string) : LatexCommand :=
  let parts := column_parts stat_name in
  let c := set_column_category init
             (String.concat EmptyString (map cap_first_letter (removelast parts))) in
  set_column_subcategory c (last parts EmptyString).

(** The loop over [stat_value.__dict__.items()]. *)
Fixpoint kind_leaves (command : LatexCommand) (column : Column)
    (items : list (string * option Q)) : list LatexCommand :=
  match items with
  | [] => []
  | (k, None) :: rest => kind_leaves command column rest
  | (k, Some v) :: rest =>
      let c := set_command_value (set_stat_type command k)
                 (format_value column v "csv") in
      c :: kind_leaves c column rest
  end.

(** The unit command yielded after the kinds, when [column.unit] is truthy.
    The kind loop changes only [stat_type] and [value] of the command, and
    both are overwritten here, so the command before the kind loop is used. *)
Definition unit_leaf (command : LatexCommand) (u : string) : LatexCommand :=
  set_command_value (set_stat_type command "unit") u.

Definition unit_leaves (command : LatexCommand) (column : Column) : list LatexCommand :=
  match unit column with
  | Some u => if String.eqb u EmptyString then [] else [unit_leaf command u]
  | None => []
  end.

(** The commands of one statistic name whose [StatValue] is present. *)
Definition stat_leaves (init : LatexCommand) (column : Column)
    (stat_name : string) (sv : StatValue) : list LatexCommand :=
  let command := stat_command init stat_name in
  kind_leaves command column (sv_items sv) ++ unit_leaves command column.

Definition column_statistic_to_latex_command (init : LatexCommand)
    (column_statistic : option ColumnStatistics) (column : Column)
    : list LatexCommand :=
  match column_statistic with
  | None => []
  | Some cs =>
      flat_map (fun '(stat_name, svo) =>
                  match svo with
                  | None => []
                  | Some sv => stat_leaves init column stat_name sv
                  end) (cs_items cs)
  end.

(** ** [_provide_latex_commands] *)

Definition select_column_name (col : Column) : string :=
  match display_title col with
  | Some d => if py_truthy (display_title col) then d else title col
  | None => title col
  end.

(** The loop over [zip(run_set.columns, stat_list)]; [current_command] is
    the one object whose [column_title] each iteration overwrites. *)
Fixpoint provide_go (totals : string -> nat) (used : string -> nat)
    (current_command : LatexCommand)
    (pairs : list (Column * option ColumnStatistics)) : list LatexCommand :=
  match pairs with
  | [] => []
  | (column, column_stats) :: rest =>
      let column_title := select_column_name column in
      let (used', d) := resolve_step String.eqb totals used column_title in
      let column_title :=
        match d with
        | Some n => (column_title ++ number_to_roman_string n)%string
        | None => column_title
        end in
      let current_command := set_column_title current_command column_title in
      column_statistic_to_latex_command current_command column_stats column
      ++ provide_go totals used' current_command rest
  end.

Definition provide_latex_commands (run_set : RunSet)
    (stat_list : list (option ColumnStatistics)) (current_command : LatexCommand)
    : list LatexCommand :=
  let column_titles_total_count :=
    counter String.eqb (map select_column_name (columns run_set)) in
  provide_go column_titles_total_count (fun _ => 0) current_command
    (combine (columns run_set) stat_list).

(** ** [write_tex_command_table]

    [run_sets] is a list of object identities; [heap] gives the object of
    each.  [formatted_names] is a dict keyed by [id(run_set)]. *)

Definition names_of (r : RunSet) : string * string :=
  (format_command_part (benchmarkname r), format_command_part (niceName r)).

(** [d[k] = v] on an insertion-ordered dict. *)
Definition dict_set {V} (d : list (nat * V)) (k : nat) (v : V) : list (nat * V) :=
  if existsb (fun '(k', _) => Nat.eqb k' k) d
  then map (fun '(k', v') => if Nat.eqb k' k then (k', v) else (k', v')) d
  else d ++ [(k, v)].

Fixpoint dict_get {V} (d : list (nat * V)) (k : nat) : option V :=
  match d with
  | [] => None
  | (k', v) :: d' => if Nat.eqb k' k then Some v else dict_get d' k
  end.

Definition formatted_names (heap : nat -> RunSet) (run_sets : list nat)
    : list (nat * (string * string)) :=
  fold_left (fun d i => dict_set d i (names_of (heap i))) run_sets [].

(** The loop over [zip(run_sets, stats)]; a missing key of
    [formatted_names] would raise [KeyError], here [None]. *)
Fixpoint write_go (heap : nat -> RunSet) (names : list (nat * (string * string)))
    (totals : string * string -> nat) (used : string * string -> nat)
    (pairs : list (nat * list (option ColumnStatistics)))
    : option (list LatexCommand) :=
  match pairs with
  | [] => Some []
  | (i, stat_list) :: rest =>
      match dict_get names i with
      | None => None
      | Some name_tuple =>
          let (used', d) := resolve_step pair_eqb totals used name_tuple in
          let '(benchmark_name_formatted, runset_name_formatted) := name_tuple in
          let benchmark_name_formatted :=
            match d with
            | Some n => (benchmark_name_formatted ++ number_to_roman_string n)%string
            | None => benchmark_name_formatted
            end in
          let command := new_latex_command benchmark_name_formatted runset_name_formatted in
          match write_go heap names totals used' rest with
          | None => None
          | Some cs => Some (provide_latex_commands (heap i) stat_list command ++ cs)
          end
      end
  end.

(** The commands yielded, in the order they are written. *)
Definition emitted_commands (heap : nat -> RunSet) (run_sets : list nat)
    (stats : list (list (option ColumnStatistics))) : option (list LatexCommand) :=
  let names := formatted_names heap run_sets in
  let names_total_counts := counter pair_eqb (map snd names) in
  write_go heap names names_total_counts (fun _ => 0) (combine run_sets stats).

(** The successive [out.write] arguments: the header, then per command its
    raw text and ["%\n"]. *)
Definition write_tex_command_table (heap : nat -> RunSet) (run_sets : list nat)
    (stats : list (list (option ColumnStatistics))) : option (list string) :=
  match emitted_commands heap run_sets stats with
  | None => None
  | Some cs => Some (TEX_HEADER :: flat_map (fun c => [to_latex_raw c; ("%" ++ newline)%string]) cs)
  end.

(** ** Auxiliary definitions for the statements *)

(** The text a resolver decision appends. *)
Definition suffix_text (d : option nat) : string :=
  match d with
  | Some n => number_to_roman_string n
  | None => EmptyString
  end.

(** The command built for one run-set in [write_tex_command_table], from its
    formatted names and the resolver's decision. *)
Definition runset_command (name_tuple : string * string) (d : option nat) : LatexCommand :=
  new_latex_command (fst name_tuple ++ suffix_text d)%string (snd name_tuple).

Fixpoint all_letters (s : string) : bool :=
  match s with
  | EmptyString => true
  | String c s' => is_ascii_letter c && all_letters s'
  end.

Fixpoint all_upper (s : string) : bool :=
  match s with
  | EmptyString => true
  | String c s' => is_upper c && all_upper s'
  end.

Definition upper_start (s : string) : bool :=
  match s with
  | EmptyString => true
  | String c _ => is_upper c
  end.

(** The shape of every output of [format_command_part]. *)
Definition sanitized (s : string) : bool := all_letters s && upper_start s.

(** ** Concrete inputs *)

Definition csv_zero_one : Q -> string -> string :=
  fun q _ => if Qeq_bool q 0 then "0" else "1".

Definition plain_column (t : string) : Column := mkColumn t None None csv_zero_one.

Definition unit_column (t u : string) : Column := mkColumn t None (Some u) csv_zero_one.

(** One statistic, [total], with one value, [sum = 1]. *)
Definition one_sum_stats : ColumnStatistics :=
  mkColumnStatistics [("total", Some (mkStatValue [("sum", Some 1%Q)]))].

(** A run-set with two columns whose titles differ only in a non-letter. *)
Definition hyphen_space_runset : RunSet :=
  mkRunSet "bench" "tool" [plain_column "a-b"; plain_column "a b"].

Definition hyphen_space_heap (i : nat) : RunSet := hyphen_space_runset.

(** Run-sets 0, 1 and 3 have the names (a, x), run-set 2 has (b, y). *)
Definition aaba_heap (i : nat) : RunSet :=
  match i with
  | 2 => mkRunSet "b" "y" [plain_column "c"]
  | _ => mkRunSet "a" "x" [plain_column "c"]
  end.

(** ** Auxiliary definitions for the further properties *)

(** All six name parts of a command have the shape of a sanitised fragment. *)
Definition command_sanitized (c : LatexCommand) : bool :=
  sanitized (benchmark_name c) && sanitized (runset_name c)
  && sanitized (column_title c) && sanitized (column_category c)
  && sanitized (column_subcategory c) && sanitized (stat_type c).

(** The number of kinds of a [StatValue] whose value is present. *)
Definition present_kinds (items : list (string * option Q)) : nat :=
  length (filter (fun kv => match snd kv with Some _ => true | None => false end) items).

(** 1 when [column.unit] is truthy, else 0. *)
Definition unit_count (col : Column) : nat :=
  match unit col with
  | Some u => if String.eqb u EmptyString then 0 else 1
  | None => 0
  end.

(** The number of commands the walker yields for one statistic record. *)
Definition expected_leaf_count (col : Column) (cs : ColumnStatistics) : nat :=
  list_sum (map (fun '(_, svo) =>
                   match svo with
                   | None => 0
                   | Some sv => present_kinds (sv_items sv) + unit_count col
                   end) (cs_items cs)).

Definition has_no_underscore (s : string) : bool :=
  forallb (fun c => negb (Ascii.eqb c underscore)) (list_ascii_of_string s).

(** * Proofs *)

(** ** Characters: checked over all 256 ASCII characters *)

Ltac ascii_cases c :=
  destruct c as [[] [] [] [] [] [] [] []]; vm_compute; reflexivity.

Lemma letter_char_upper_b (c : ascii) :
  implb (is_ascii_letter c) (is_upper (char_upper c)) = true.
Proof. ascii_cases c. Qed.

Lemma upper_char_upper_b (c : ascii) :
  implb (is_upper c) (Ascii.eqb (char_upper c) c) = true.
Proof. ascii_cases c. Qed.

Lemma upper_letter_b (c : ascii) : implb (is_upper c) (is_ascii_letter c) = true.
Proof. ascii_cases c. Qed.

Lemma letter_not_digit_b (c : ascii) :
  implb (is_ascii_letter c) (negb (is_digit19 c)) = true.
Proof. ascii_cases c. Qed.

Lemma letter_not_newline_b (c : ascii) :
  implb (is_ascii_letter c) (negb (Ascii.eqb c (ascii_of_nat 10))) = true.
Proof. ascii_cases c. Qed.

Lemma letter_char_upper (c : ascii) :
  is_ascii_letter c = true -> is_upper (char_upper c) = true.
Proof. intros H. pose proof (letter_char_upper_b c) as E. rewrite H in E. exact E. Qed.

Lemma upper_char_upper (c : ascii) : is_upper c = true -> char_upper c = c.
Proof.
  intros H. pose proof (upper_char_upper_b c) as E. rewrite H in E.
  apply Ascii.eqb_eq. exact E.
Qed.

Lemma upper_letter (c : ascii) : is_upper c = true -> is_ascii_letter c = true.
Proof. intros H. pose proof (upper_letter_b c) as E. rewrite H in E. exact E. Qed.

Lemma letter_not_digit (c : ascii) : is_ascii_letter c = true -> is_digit19 c = false.
Proof.
  intros H. pose proof (letter_not_digit_b c) as E. rewrite H in E.
  destruct (is_digit19 c); [discriminate | reflexivity].
Qed.

Lemma letter_not_newline (c : ascii) :
  is_ascii_letter c = true -> Ascii.eqb c (ascii_of_nat 10) = false.
Proof.
  intros H. pose proof (letter_not_newline_b c) as E. rewrite H in E.
  destruct (Ascii.eqb c _); [discriminate | reflexivity].
Qed.

(** ** Strings *)

Lemma append_empty_r (s : string) : (s ++ EmptyString)%string = s.
Proof. induction s as [|c s IH]; simpl; [reflexivity | now rewrite IH]. Qed.

Lemma append_assoc (a b c : string) : (a ++ (b ++ c) = (a ++ b) ++ c)%string.
Proof. induction a as [|x a IH]; simpl; [reflexivity | now rewrite IH]. Qed.

Lemma all_letters_app (a b : string) :
  all_letters (a ++ b) = all_letters a && all_letters b.
Proof.
  induction a as [|c a IH]; simpl; [reflexivity | now rewrite IH, andb_assoc].
Qed.

Lemma all_upper_app (a b : string) :
  all_upper (a ++ b) = all_upper a && all_upper b.
Proof.
  induction a as [|c a IH]; simpl; [reflexivity | now rewrite IH, andb_assoc].
Qed.

Lemma all_upper_letters (s : string) : all_upper s = true -> all_letters s = true.
Proof.
  induction s as [|c s IH]; simpl; [reflexivity|].
  intros H. apply andb_prop in H as [H1 H2].
  now rewrite (upper_letter c H1), (IH H2).
Qed.

Lemma all_upper_start (s : string) : all_upper s = true -> upper_start s = true.
Proof. destruct s as [|c s]; simpl; [reflexivity|]. now intros [? ?]%andb_prop. Qed.

Lemma upper_start_app (a b : string) :
  upper_start a = true -> upper_start b = true -> upper_start (a ++ b) = true.
Proof. destruct a; simpl; auto. Qed.

Lemma sanitized_app (a b : string) :
  sanitized a = true -> sanitized b = true -> sanitized (a ++ b) = true.
Proof.
  unfold sanitized. intros [A1 A2]%andb_prop [B1 B2]%andb_prop.
  now rewrite all_letters_app, A1, B1, upper_start_app.
Qed.

Lemma all_letters_list (s : string) :
  forallb is_ascii_letter (list_ascii_of_string s) = all_letters s.
Proof. induction s as [|c s IH]; simpl; [reflexivity | now rewrite IH]. Qed.

(** ** Roman numerals are capital letters *)

Lemma repeat_string_upper (n : nat) (s : string) :
  all_upper s = true -> all_upper (repeat_string n s) = true.
Proof.
  intros H. induction n as [|n IH]; simpl; [reflexivity|].
  now rewrite all_upper_app, H, IH.
Qed.

Lemma roman_go_upper (tbl : list (nat * string)) (n : nat) :
  forallb (fun p => all_upper (snd p)) tbl = true -> all_upper (roman_go tbl n) = true.
Proof.
  revert n. induction tbl as [|[v s] tbl IH]; intros n H; simpl; [reflexivity|].
  simpl in H. apply andb_prop in H as [H1 H2].
  now rewrite all_upper_app, repeat_string_upper, IH.
Qed.

Lemma roman_upper (n : nat) : all_upper (number_to_roman_string n) = true.
Proof. apply roman_go_upper. reflexivity. Qed.

Lemma roman_sanitized (n : nat) : sanitized (number_to_roman_string n) = true.
Proof.
  unfold sanitized. pose proof (roman_upper n).
  now rewrite all_upper_letters, all_upper_start.
Qed.

Lemma suffix_text_sanitized (d : option nat) : sanitized (suffix_text d) = true.
Proof. destruct d; simpl; [apply roman_sanitized | reflexivity]. Qed.

(** ** [format_command_part]: its outputs, and its fixed points *)

Lemma re_split_go_letters (cur s : string) :
  all_letters s = true -> re_split_go cur s = [(cur ++ s)%string].
Proof.
  revert cur. induction s as [|c s IH]; intros cur H; simpl.
  - now rewrite append_empty_r.
  - simpl in H. apply andb_prop in H as [Hc Hs]. rewrite Hc, IH by exact Hs.
    now rewrite <- append_assoc.
Qed.

Lemma re_split_go_tokens (cur s : string) :
  all_letters cur = true -> Forall (fun t => all_letters t = true) (re_split_go cur s).
Proof.
  revert cur. induction s as [|c s IH]; intros cur H; simpl.
  - now constructor.
  - destruct (is_ascii_letter c) eqn:Hc.
    + apply IH. rewrite all_letters_app, H. simpl. now rewrite Hc.
    + constructor; [exact H | now apply IH].
Qed.

Lemma cap_first_sanitized (t : string) :
  all_letters t = true -> sanitized (cap_first_letter t) = true.
Proof.
  destruct t as [|c t]; [reflexivity|]. simpl. intros [Hc Ht]%andb_prop.
  unfold sanitized. simpl.
  now rewrite (upper_letter _ (letter_char_upper c Hc)), Ht, letter_char_upper.
Qed.

Lemma concat_sanitized (l : list string) :
  Forall (fun t => sanitized t = true) l -> sanitized (String.concat EmptyString l) = true.
Proof.
  induction l as [|a l IH]; intros H; [reflexivity|].
  inversion H as [|? ? Ha Hl]; subst. simpl.
  destruct l as [|b l]; [exact Ha|].
  apply sanitized_app; [exact Ha | exact (IH Hl)].
Qed.

Lemma format_command_part_sanitized (name : string) :
  sanitized (format_command_part name) = true.
Proof.
  unfold format_command_part. apply concat_sanitized.
  apply Forall_map. eapply Forall_impl; [|apply re_split_go_tokens; reflexivity].
  intros t Ht. now apply cap_first_sanitized.
Qed.

Lemma roman_subst_letters (s : string) : all_letters s = true -> roman_subst s = s.
Proof.
  intros H. unfold roman_subst.
  assert (Hd : all_digits19 s = false).
  { destruct s as [|c s]; [reflexivity|]. simpl in H |- *.
    apply andb_prop in H as [Hc _]. now rewrite (letter_not_digit c Hc). }
  rewrite Hd. unfold strip_final_newline.
  rewrite <- all_letters_list in H.
  destruct (rev (list_ascii_of_string s)) as [|c r] eqn:E; [reflexivity|].
  assert (Hc : is_ascii_letter c = true).
  { rewrite forallb_forall in H. apply H. apply (in_rev (list_ascii_of_string s)).
    rewrite E. now left. }
  now rewrite (letter_not_newline c Hc).
Qed.

Lemma format_command_part_fix (s : string) :
  sanitized s = true -> format_command_part s = s.
Proof.
  unfold sanitized. intros [Hl Hu]%andb_prop. unfold format_command_part.
  rewrite (roman_subst_letters s Hl). unfold re_split_nonletters.
  rewrite (re_split_go_letters _ _ Hl). simpl.
  destruct s as [|c s]; [reflexivity|]. simpl in Hu |- *.
  now rewrite (upper_char_upper c Hu).
Qed.

Lemma format_command_part_idem (name : string) :
  format_command_part (format_command_part name) = format_command_part name.
Proof. apply format_command_part_fix, format_command_part_sanitized. Qed.

(** The run-set command carries the formatted benchmark name with the suffix
    appended, and the formatted run-set name unchanged. *)
Lemma runset_command_names (r : RunSet) (d : option nat) :
  benchmark_name (runset_command (names_of r) d)
    = (format_command_part (benchmarkname r) ++ suffix_text d)%string
  /\ runset_name (runset_command (names_of r) d) = format_command_part (niceName r).
Proof.
  unfold runset_command, new_latex_command, names_of. simpl. split.
  - apply format_command_part_fix, sanitized_app;
      [apply format_command_part_sanitized | apply suffix_text_sanitized].
  - apply format_command_part_idem.
Qed.

(** ** The resolver *)

Section ResolverProofs.
Context {K : Type} (eqb : K -> K -> bool).
Hypothesis eqb_true : forall a b, eqb a b = true <-> a = b.


Lemma counter_cons (a : K) (l : list K) (k : K) :
  counter eqb (a :: l) k = (if eqb k a then 1 else 0) + counter eqb l k.
Proof. unfold counter. simpl. now destruct (eqb k a). Qed.



Lemma resolve_with_length (totals used : K -> nat) (ks : list K) :
  length (resolve_with eqb totals used ks) = length ks.
Proof.
  revert used. induction ks as [|k ks IH]; intros used; simpl; [reflexivity|].
  now rewrite IH.
Qed.



(** Truncating the walked sequence of a zip does not change the decisions of
    the pairs kept. *)
Lemma combine_resolve_with {A B : Type} (sel : A -> K) (totals used : K -> nat)
    (l1 : list A) (l2 : list B) :
  combine (combine l1 l2)
    (resolve_with eqb totals used (map (fun p => sel (fst p)) (combine l1 l2)))
  = combine (combine l1 l2) (resolve_with eqb totals used (map sel l1)).
Proof.
  revert used l2. induction l1 as [|a l1 IH]; intros used l2; [reflexivity|].
  destruct l2 as [|b l2]; [reflexivity|]. simpl. f_equal. apply IH.
Qed.
End ResolverProofs.

Lemma string_eqb_true (a b : string) : String.eqb a b = true <-> a = b.
Proof. apply String.eqb_eq. Qed.

Lemma pair_eqb_true (a b : string * string) : pair_eqb a b = true <-> a = b.
Proof.
  destruct a as [a1 a2], b as [b1 b2]. unfold pair_eqb. simpl.
  rewrite andb_true_iff, !String.eqb_eq. split; [intros [-> ->]; reflexivity|].
  intros H. now inversion H.
Qed.

(** ** The column loop as a map over the zipped columns *)

Lemma set_column_title_twice (c : LatexCommand) (a b : string) :
  set_column_title (set_column_title c a) b = set_column_title c b.
Proof. reflexivity. Qed.

Lemma suffix_match (t : string) (d : option nat) :
  match d with
  | Some n => (t ++ number_to_roman_string n)%string
  | None => t
  end = (t ++ suffix_text d)%string.
Proof. destruct d; simpl; [reflexivity | now rewrite append_empty_r]. Qed.

Lemma provide_go_spec (totals used : string -> nat) (cmd : LatexCommand)
    (pairs : list (Column * option ColumnStatistics)) :
  provide_go totals used cmd pairs
  = flat_map (fun '((col, st), d) =>
       column_statistic_to_latex_command
         (set_column_title cmd (select_column_name col ++ suffix_text d)) st col)
     (combine pairs
        (resolve_with String.eqb totals used
           (map (fun p => select_column_name (fst p)) pairs))).
Proof.
  revert used cmd. induction pairs as [|[col st] pairs IH]; intros used cmd;
    [reflexivity|].
  simpl. rewrite suffix_match. f_equal. rewrite IH. reflexivity.
Qed.

Lemma provide_latex_commands_spec (rs : RunSet) (sl : list (option ColumnStatistics))
    (cmd : LatexCommand) :
  provide_latex_commands rs sl cmd
  = flat_map (fun '((col, st), d) =>
       column_statistic_to_latex_command
         (set_column_title cmd (select_column_name col ++ suffix_text d)) st col)
     (combine (combine (columns rs) sl)
        (resolve String.eqb (map select_column_name (columns rs)))).
Proof.
  unfold provide_latex_commands, resolve. rewrite provide_go_spec.
  now rewrite (combine_resolve_with String.eqb select_column_name).
Qed.

(** ** The dict [formatted_names] *)

Lemma dict_get_map_other {V} (d : list (nat * V)) (k k' : nat) (v : V) :
  k <> k' ->
  dict_get (map (fun '(k0, v0) => if Nat.eqb k0 k then (k0, v) else (k0, v0)) d) k'
  = dict_get d k'.
Proof.
  intros Hne. induction d as [|[k0 v0] d IH]; [reflexivity|]. simpl.
  destruct (Nat.eqb k0 k) eqn:E; simpl.
  - apply Nat.eqb_eq in E. subst. apply Nat.eqb_neq in Hne. now rewrite Hne.
  - now rewrite IH.
Qed.

Lemma dict_get_map_hit {V} (d : list (nat * V)) (k k' : nat) (v : V) :
  existsb (fun '(k0, _) => Nat.eqb k0 k) d = true ->
  dict_get (map (fun '(k0, v0) => if Nat.eqb k0 k then (k0, v) else (k0, v0)) d) k'
  = if Nat.eqb k k' then Some v else dict_get d k'.
Proof.
  induction d as [|[k0 v0] d IH]; intros H; [discriminate|]. simpl in H |- *.
  destruct (Nat.eqb k0 k) eqn:E; simpl.
  - apply Nat.eqb_eq in E. subst.
    destruct (Nat.eqb k k') eqn:E'; [reflexivity|].
    apply dict_get_map_other. now apply Nat.eqb_neq.
  - rewrite IH by exact H.
    destruct (Nat.eqb k k') eqn:E'; [|reflexivity].
    apply Nat.eqb_eq in E'. subst. now rewrite E.
Qed.

Lemma dict_get_absent {V} (d : list (nat * V)) (k : nat) :
  existsb (fun '(k0, _) => Nat.eqb k0 k) d = false -> dict_get d k = None.
Proof.
  induction d as [|[k0 v0] d IH]; intros H; [reflexivity|]. simpl in H |- *.
  apply orb_false_iff in H as [H1 H2]. rewrite H1. now apply IH.
Qed.

Lemma dict_get_snoc {V} (d : list (nat * V)) (k k' : nat) (v : V) :
  dict_get (d ++ [(k, v)]) k'
  = match dict_get d k' with
    | Some x => Some x
    | None => if Nat.eqb k k' then Some v else None
    end.
Proof.
  induction d as [|[k0 v0] d IH]; [reflexivity|]. simpl.
  destruct (Nat.eqb k0 k'); [reflexivity | exact IH].
Qed.

Lemma dict_get_set {V} (d : list (nat * V)) (k k' : nat) (v : V) :
  dict_get (dict_set d k v) k' = if Nat.eqb k k' then Some v else dict_get d k'.
Proof.
  unfold dict_set. destruct (existsb _ d) eqn:E.
  - now apply dict_get_map_hit.
  - rewrite dict_get_snoc. destruct (Nat.eqb k k') eqn:E'.
    + apply Nat.eqb_eq in E'. subst. now rewrite dict_get_absent.
    + now destruct (dict_get d k').
Qed.

Lemma dict_get_fold {V} (g : nat -> V) (l : list nat) (d0 : list (nat * V)) (k : nat) :
  dict_get (fold_left (fun d i => dict_set d i (g i)) l d0) k
  = if existsb (Nat.eqb k) l then Some (g k) else dict_get d0 k.
Proof.
  revert d0. induction l as [|a l IH]; intros d0; [reflexivity|]. simpl.
  rewrite IH, dict_get_set.
  destruct (Nat.eqb k a) eqn:E; simpl.
  - apply Nat.eqb_eq in E. subst. rewrite Nat.eqb_refl.
    now destruct (existsb _ l).
  - rewrite Nat.eqb_sym, E. reflexivity.
Qed.

Lemma formatted_names_get (heap : nat -> RunSet) (ids : list nat) (i : nat) :
  In i ids -> dict_get (formatted_names heap ids) i = Some (names_of (heap i)).
Proof.
  intros H. unfold formatted_names.
  rewrite (dict_get_fold (fun i => names_of (heap i))).
  replace (existsb (Nat.eqb i) ids) with true; [reflexivity|].
  symmetry. apply existsb_exists. exists i. split; [exact H | apply Nat.eqb_refl].
Qed.

(** ** The run-set loop as a map over the zipped run-sets *)

Lemma write_go_spec (heap : nat -> RunSet) (names : list (nat * (string * string)))
    (totals used : string * string -> nat)
    (pairs : list (nat * list (option ColumnStatistics))) :
  (forall i sl, In (i, sl) pairs -> dict_get names i = Some (names_of (heap i))) ->
  write_go heap names totals used pairs
  = Some (flat_map (fun '((i, sl), d) =>
             provide_latex_commands (heap i) sl (runset_command (names_of (heap i)) d))
           (combine pairs
              (resolve_with pair_eqb totals used
                 (map (fun p => names_of (heap (fst p))) pairs)))).
Proof.
  revert used. induction pairs as [|[i sl] pairs IH]; intros used Hnames;
    [reflexivity|].
  simpl. rewrite (Hnames i sl) by (left; reflexivity).
  rewrite IH by (intros j sl' Hin; apply (Hnames j sl'); right; exact Hin).
  unfold names_of at 1. simpl. rewrite suffix_match. reflexivity.
Qed.

(** The decisions of the run-set resolver: the totals are counted over the
    values of [formatted_names] (one per distinct object), the running counts
    over the zipped run-sets. *)
Lemma emitted_commands_spec (heap : nat -> RunSet) (ids : list nat)
    (stats : list (list (option ColumnStatistics))) :
  emitted_commands heap ids stats
  = Some (flat_map (fun '((i, sl), d) =>
             provide_latex_commands (heap i) sl (runset_command (names_of (heap i)) d))
           (combine (combine ids stats)
              (resolve_with pair_eqb
                 (counter pair_eqb (map snd (formatted_names heap ids))) (fun _ => 0)
                 (map (fun i => names_of (heap i)) ids)))).
Proof.
  unfold emitted_commands. rewrite write_go_spec.
  - now rewrite (combine_resolve_with pair_eqb (fun i => names_of (heap i))).
  - intros i sl Hin. apply formatted_names_get. now apply in_combine_l in Hin.
Qed.

(** ** Fields kept by the walker *)

Lemma kind_leaves_frame (cmd : LatexCommand) (col : Column) (items : list (string * option Q)) :
  Forall (fun c => benchmark_name c = benchmark_name cmd /\ runset_name c = runset_name cmd
                   /\ column_title c = column_title cmd
                   /\ column_category c = column_category cmd
                   /\ column_subcategory c = column_subcategory cmd)
    (kind_leaves cmd col items).
Proof.
  revert cmd. induction items as [|[k [v|]] items IH]; intros cmd; simpl.
  - constructor.
  - constructor; [simpl; tauto|].
    eapply Forall_impl; [|apply IH]. simpl. tauto.
  - apply IH.
Qed.

Lemma kind_leaves_length (c1 c2 : LatexCommand) (col : Column)
    (items : list (string * option Q)) :
  length (kind_leaves c1 col items) = length (kind_leaves c2 col items).
Proof.
  revert c1 c2. induction items as [|[k [v|]] items IH]; intros c1 c2; simpl;
    [reflexivity | now erewrite IH | apply IH].
Qed.

Lemma unit_leaves_length (c1 c2 : LatexCommand) (col : Column) :
  length (unit_leaves c1 col) = length (unit_leaves c2 col).
Proof. unfold unit_leaves. destruct (unit col) as [u|]; [destruct (String.eqb u _)|]; reflexivity. Qed.

Lemma flat_map_length_ext {A B C : Type} (f : A -> list B) (g : A -> list C) (l : list A) :
  (forall a, length (f a) = length (g a)) -> length (flat_map f l) = length (flat_map g l).
Proof.
  intros H. induction l as [|a l IH]; [reflexivity|]. simpl.
  now rewrite !length_app, H, IH.
Qed.

Lemma column_statistic_length (c1 c2 : LatexCommand) (st : option ColumnStatistics)
    (col : Column) :
  length (column_statistic_to_latex_command c1 st col)
  = length (column_statistic_to_latex_command c2 st col).
Proof.
  destruct st as [cs|]; [|reflexivity]. simpl. apply flat_map_length_ext.
  intros [n [sv|]]; [|reflexivity]. unfold stat_leaves.
  rewrite !length_app. f_equal; [apply kind_leaves_length | apply unit_leaves_length].
Qed.

Lemma provide_latex_commands_length (rs : RunSet) (sl : list (option ColumnStatistics))
    (c1 c2 : LatexCommand) :
  length (provide_latex_commands rs sl c1) = length (provide_latex_commands rs sl c2).
Proof.
  rewrite !provide_latex_commands_spec. apply flat_map_length_ext.
  intros [[col st] d]. apply column_statistic_length.
Qed.

Lemma column_statistic_frame (cmd : LatexCommand) (st : option ColumnStatistics)
    (col : Column) :
  Forall (fun c => benchmark_name c = benchmark_name cmd /\ runset_name c = runset_name cmd
                   /\ column_title c = column_title cmd)
    (column_statistic_to_latex_command cmd st col).
Proof.
  destruct st as [cs|]; [|constructor]. simpl. apply Forall_flat_map.
  apply Forall_forall. intros [n [sv|]] _; [|constructor].
  unfold stat_leaves. apply Forall_app. split.
  - eapply Forall_impl; [|apply kind_leaves_frame]. simpl. tauto.
  - unfold unit_leaves. destruct (unit col) as [u|]; [destruct (String.eqb u _)|];
      repeat constructor.
Qed.

Lemma provide_latex_commands_frame (rs : RunSet) (sl : list (option ColumnStatistics))
    (cmd : LatexCommand) :
  Forall (fun c => benchmark_name c = benchmark_name cmd /\ runset_name c = runset_name cmd)
    (provide_latex_commands rs sl cmd).
Proof.
  rewrite provide_latex_commands_spec. apply Forall_flat_map.
  apply Forall_forall. intros [[col st] d] _.
  eapply Forall_impl; [|apply column_statistic_frame]. simpl. tauto.
Qed.

(** * The claims *)

(** C5: the sanitiser spells the label "7" as the Roman numeral VII, a
    non-empty string of capital letters; the label "0" is not a string of
    the digits 1-9, is left as it is by the numeral substitution, splits
    into two empty pieces and sanitises to the empty fragment. *)
Theorem C5_seven_roman_zero_empty :
  format_command_part "7" = number_to_roman_string 7
  /\ number_to_roman_string 7 = "VII"
  /\ sanitized "VII" = true
  /\ all_digits19 "0" = false
  /\ roman_subst "0" = "0"
  /\ re_split_nonletters "0" = [EmptyString; EmptyString]
  /\ format_command_part "0" = EmptyString.
Proof. repeat split; vm_compute; reflexivity. Qed.

(** C6: in the kind loop of the walker, a kind whose value is absent yields
    nothing, and a kind with any present value, zero included, yields a
    command with that kind and the column's ["csv"] rendering of the value. *)
Theorem C6_absent_skipped_zero_emitted (cmd : LatexCommand) (col : Column)
    (k : string) (v : Q) (rest : list (string * option Q)) :
  kind_leaves cmd col ((k, None) :: rest) = kind_leaves cmd col rest
  /\ kind_leaves cmd col ((k, Some v) :: rest)
     = (let c := set_command_value (set_stat_type cmd k) (format_value col v "csv") in
        c :: kind_leaves c col rest)
  /\ kind_leaves cmd col ((k, Some 0%Q) :: rest)
     = (let c := set_command_value (set_stat_type cmd k) (format_value col 0%Q "csv") in
        c :: kind_leaves c col rest).
Proof. repeat split. Qed.

(** C7: for a column with a non-empty unit, every statistic name whose
    [StatValue] is present yields its kind commands followed by exactly one
    more command, of kind "unit" (sanitised to "Unit"), whose value is the
    unit text itself and whose category and subcategory are those of the
    statistic's kind commands. *)
Theorem C7_one_unit_leaf_per_statistic (init : LatexCommand) (col : Column)
    (u : string) (cs : ColumnStatistics) :
  unit col = Some u -> u <> EmptyString ->
  column_statistic_to_latex_command init (Some cs) col
  = flat_map (fun '(stat_name, svo) =>
       match svo with
       | None => []
       | Some sv =>
           kind_leaves (stat_command init stat_name) col (sv_items sv)
           ++ [unit_leaf (stat_command init stat_name) u]
       end) (cs_items cs)
  /\ (forall stat_name sv,
        let c := stat_command init stat_name in
        Forall (fun l => column_category l = column_category c
                         /\ column_subcategory l = column_subcategory c)
          (kind_leaves c col (sv_items sv) ++ [unit_leaf c u])
        /\ stat_type (unit_leaf c u) = "Unit"
        /\ value (unit_leaf c u) = u
        /\ to_latex_raw (unit_leaf c u)
           = ("\StoreBenchExecResult" ++ brace (benchmark_name c) ++ brace (runset_name c)
              ++ brace (column_title c) ++ brace (column_category c)
              ++ brace (column_subcategory c) ++ brace "Unit" ++ brace u)%string).
Proof.
  intros Hu Hne. split.
  - simpl. apply flat_map_ext. intros [n [sv|]]; [|reflexivity].
    unfold stat_leaves, unit_leaves. rewrite Hu.
    apply String.eqb_neq in Hne. now rewrite Hne.
  - intros n sv c. repeat split; try reflexivity.
    apply Forall_app. split; [|repeat constructor].
    eapply Forall_impl; [|apply kind_leaves_frame]. simpl. tauto.
Qed.

Lemma C7_one_unit_leaf_per_statistic_witness :
  unit (unit_column "cpu" "s") = Some "s" /\ "s" <> EmptyString
  /\ column_statistic_to_latex_command
       (new_latex_command "bench" "tool") (Some one_sum_stats) (unit_column "cpu" "s")
     = kind_leaves (stat_command (new_latex_command "bench" "tool") "total")
         (unit_column "cpu" "s") [("sum", Some 1%Q)]
       ++ [unit_leaf (stat_command (new_latex_command "bench" "tool") "total") "s"].
Proof.
  assert (Hu : unit (unit_column "cpu" "s") = Some "s") by reflexivity.
  assert (Hne : "s" <> EmptyString) by discriminate.
  split; [exact Hu|]. split; [exact Hne|].
  destruct (C7_one_unit_leaf_per_statistic (new_latex_command "bench" "tool")
              (unit_column "cpu" "s") "s" one_sum_stats Hu Hne) as [E _].
  rewrite E. reflexivity.
Defined.

(** C10: a statistic whose [StatValue] is present but has every kind value
    absent still yields the unit command, with that statistic's category and
    subcategory, when the column has a non-empty unit. *)
Theorem C10_unit_leaf_without_kinds (init : LatexCommand) (col : Column)
    (stat_name : string) (sv : StatValue) (u : string) :
  unit col = Some u -> u <> EmptyString ->
  forallb (fun kv => match snd kv with None => true | Some _ => false end)
    (sv_items sv) = true ->
  stat_leaves init col stat_name sv = [unit_leaf (stat_command init stat_name) u]
  /\ column_category (unit_leaf (stat_command init stat_name) u)
     = column_category (stat_command init stat_name)
  /\ column_subcategory (unit_leaf (stat_command init stat_name) u)
     = column_subcategory (stat_command init stat_name).
Proof.
  intros Hu Hne Hall. repeat split.
  unfold stat_leaves, unit_leaves. rewrite Hu.
  apply String.eqb_neq in Hne. rewrite Hne.
  replace (kind_leaves _ col (sv_items sv)) with (@nil LatexCommand); [reflexivity|].
  generalize (stat_command init stat_name). induction (sv_items sv) as [|[k [v|]] items IH];
    intros c; simpl in Hall |- *; [reflexivity | discriminate | now apply IH].
Qed.

Lemma C10_unit_leaf_without_kinds_witness :
  stat_leaves (new_latex_command "bench" "tool") (unit_column "cpu" "s") "correct_true"
    (mkStatValue [("sum", None); ("max", None)])
  = [unit_leaf (stat_command (new_latex_command "bench" "tool") "correct_true") "s"]
  /\ column_category
       (unit_leaf (stat_command (new_latex_command "bench" "tool") "correct_true") "s")
     = "Correct"
  /\ column_subcategory
       (unit_leaf (stat_command (new_latex_command "bench" "tool") "correct_true") "s")
     = "True".
Proof.
  destruct (C10_unit_leaf_without_kinds (new_latex_command "bench" "tool")
              (unit_column "cpu" "s") "correct_true"
              (mkStatValue [("sum", None); ("max", None)]) "s"
              eq_refl ltac:(discriminate) eq_refl) as [E [E1 E2]].
  split; [exact E|]. rewrite E1, E2. split; vm_compute; reflexivity.
Defined.

(** C1 (at its failing input): one run-set with two columns titled "a-b"
    and "a b" emits two commands with the same six name parts. *)
Theorem C1_duplicate_name_parts_at_failing_input :
  emitted_commands hyphen_space_heap [0] [[Some one_sum_stats; Some one_sum_stats]]
  = Some [mkLatexCommand "Bench" "Tool" "AB" "Total" EmptyString "Sum" "1";
          mkLatexCommand "Bench" "Tool" "AB" "Total" EmptyString "Sum" "1"].
Proof. vm_compute. reflexivity. Qed.

(** C3 (at its failing input): the column resolver counts the raw titles
    "a-b" and "a b", which differ, so it suffixes neither, although both
    sanitise to the fragment "AB". *)
Theorem C3_raw_titles_compared :
  resolve String.eqb (map select_column_name (columns hyphen_space_runset)) = [None; None]
  /\ map format_command_part (map select_column_name (columns hyphen_space_runset))
     = ["AB"; "AB"].
Proof. split; vm_compute; reflexivity. Qed.

(** C2 (counterexample): two run-sets with the same names (a, x): the
    run-set fragment "X" of both is left without suffix, the suffixes go to
    the benchmark fragment. *)
Lemma C2_runset_fragment_not_suffixed :
  emitted_commands aaba_heap [0; 1] [[Some one_sum_stats]; [Some one_sum_stats]]
  = Some [mkLatexCommand "AI" "X" "C" "Total" EmptyString "Sum" "1";
          mkLatexCommand "AII" "X" "C" "Total" EmptyString "Sum" "1"].
Proof. vm_compute. reflexivity. Qed.

(** C2 (as amended): at the run-set level the commands of each zipped
    run-set are those built from [runset_command] with the resolver's
    decision, whose benchmark fragment is the formatted benchmark name with
    the Roman suffix appended and whose run-set fragment is the formatted
    run-set name unchanged; every command of the run-set keeps these two
    fragments.  At the column level the suffix is appended to the raw
    selected column title, which is then sanitised as a whole. *)
Theorem C2_suffix_on_benchmark_fragment :
  (forall heap ids stats,
     emitted_commands heap ids stats
     = Some (flat_map (fun '((i, sl), d) =>
                provide_latex_commands (heap i) sl (runset_command (names_of (heap i)) d))
              (combine (combine ids stats)
                 (resolve_with pair_eqb
                    (counter pair_eqb (map snd (formatted_names heap ids))) (fun _ => 0)
                    (map (fun i => names_of (heap i)) ids)))))
  /\ (forall r d,
        benchmark_name (runset_command (names_of r) d)
          = (format_command_part (benchmarkname r) ++ suffix_text d)%string
        /\ runset_name (runset_command (names_of r) d) = format_command_part (niceName r))
  /\ (forall rs sl cmd,
        Forall (fun c => benchmark_name c = benchmark_name cmd
                         /\ runset_name c = runset_name cmd)
          (provide_latex_commands rs sl cmd))
  /\ (forall rs sl cmd,
        provide_latex_commands rs sl cmd
        = flat_map (fun '((col, st), d) =>
             column_statistic_to_latex_command
               (set_column_title cmd (select_column_name col ++ suffix_text d)) st col)
           (combine (combine (columns rs) sl)
              (resolve String.eqb (map select_column_name (columns rs))))).
Proof.
  split; [exact emitted_commands_spec|]. split; [exact runset_command_names|].
  split; [exact provide_latex_commands_frame | exact provide_latex_commands_spec].
Qed.

Lemma formatted_names_nodup (g : nat -> string * string) (pre l : list nat) :
  NoDup (pre ++ l) ->
  fold_left (fun d i => dict_set d i (g i)) l (map (fun i => (i, g i)) pre)
  = map (fun i => (i, g i)) (pre ++ l).
Proof.
  revert pre. induction l as [|a l IH]; intros pre Hnd; simpl.
  - now rewrite app_nil_r.
  - assert (Ha : ~ In a pre).
    { intros Hin. apply (NoDup_remove_2 pre l a Hnd). apply in_or_app. now left. }
    unfold dict_set at 2.
    replace (existsb (fun '(k', _) => Nat.eqb k' a) (map (fun i => (i, g i)) pre))
      with false.
    + replace (map (fun i => (i, g i)) pre ++ [(a, g a)])
        with (map (fun i => (i, g i)) (pre ++ [a])) by now rewrite map_app.
      rewrite IH; [now rewrite <- app_assoc|]. now rewrite <- app_assoc.
    + symmetry. apply not_true_iff_false. intros Hex.
      apply existsb_exists in Hex as [[k v] [Hk Hkv]].
      apply Nat.eqb_eq in Hkv. subst k.
      apply in_map_iff in Hk as [j [Hj Hjin]]. inversion Hj; subst j. tauto.
Qed.

Lemma emitted_commands_distinct (heap : nat -> RunSet) (ids : list nat)
    (stats : list (list (option ColumnStatistics))) :
  NoDup ids ->
  emitted_commands heap ids stats
  = Some (flat_map (fun '((i, sl), d) =>
             provide_latex_commands (heap i) sl (runset_command (names_of (heap i)) d))
           (combine (combine ids stats)
              (resolve pair_eqb (map (fun i => names_of (heap i)) ids)))).
Proof.
  intros Hnd. rewrite emitted_commands_spec. unfold resolve.
  unfold formatted_names.
  pose proof (formatted_names_nodup (fun i => names_of (heap i)) [] ids Hnd) as E.
  simpl in E. rewrite E, map_map. reflexivity.
Qed.




(** ** Zips *)

Lemma combine_app_l {A B : Type} (l : list A) (extra : list A) (l' : list B) :
  length l' <= length l -> combine (l ++ extra) l' = combine l l'.
Proof.
  revert l'. induction l as [|a l IH]; intros l' H.
  - destruct l'; [destruct extra; reflexivity | simpl in H; lia].
  - destruct l' as [|b l']; [reflexivity|]. simpl in H |- *. f_equal. apply IH. lia.
Qed.

Lemma flat_map_combine_length {A B C : Type} (F : A * B -> list C) (P : list A)
    (ds1 ds2 : list B) :
  length P <= length ds1 -> length P <= length ds2 ->
  (forall p d1 d2, length (F (p, d1)) = length (F (p, d2))) ->
  length (flat_map F (combine P ds1)) = length (flat_map F (combine P ds2)).
Proof.
  revert ds1 ds2. induction P as [|p P IH]; intros ds1 ds2 H1 H2 HF; [reflexivity|].
  destruct ds1 as [|d1 ds1]; [simpl in H1; lia|].
  destruct ds2 as [|d2 ds2]; [simpl in H2; lia|].
  simpl in H1, H2 |- *. rewrite !length_app, (HF p d1 d2), (IH ds1 ds2); auto; lia.
Qed.

(** C9: generation never fails, whatever the lengths of the lists; run-sets
    beyond the length of [stats], and columns beyond the length of a
    run-set's statistics list, add no command: the number of commands is the
    one without them. *)
Theorem C9_zip_truncates_without_error :
  (forall heap ids stats, write_tex_command_table heap ids stats <> None)
  /\ (forall heap ids extra stats,
        length stats <= length ids ->
        option_map (@length LatexCommand) (emitted_commands heap (ids ++ extra) stats)
        = option_map (@length LatexCommand) (emitted_commands heap ids stats))
  /\ (forall b n cols extra sl cmd,
        length sl <= length cols ->
        length (provide_latex_commands (mkRunSet b n (cols ++ extra)) sl cmd)
        = length (provide_latex_commands (mkRunSet b n cols) sl cmd)).
Proof.
  split; [|split].
  - intros heap ids stats. unfold write_tex_command_table.
    now rewrite emitted_commands_spec.
  - intros heap ids extra stats H. rewrite !emitted_commands_spec. cbn [option_map]. f_equal.
    rewrite (combine_app_l ids extra stats H).
    apply flat_map_combine_length.
    + rewrite resolve_with_length, length_map, length_combine, length_app. lia.
    + rewrite resolve_with_length, length_map, length_combine. lia.
    + intros [i sl] d1 d2. apply provide_latex_commands_length.
  - intros b n cols extra sl cmd H. rewrite !provide_latex_commands_spec. cbn [columns].
    rewrite (combine_app_l cols extra sl H).
    apply flat_map_combine_length.
    + unfold resolve. rewrite resolve_with_length, length_map, length_combine, length_app. lia.
    + unfold resolve. rewrite resolve_with_length, length_map, length_combine. lia.
    + intros [col st] d1 d2. apply column_statistic_length.
Qed.

Lemma C9_zip_truncates_without_error_witness :
  length [[Some one_sum_stats]] <= length [0]
  /\ option_map (@length LatexCommand)
       (emitted_commands aaba_heap ([0] ++ [1; 2]) [[Some one_sum_stats]])
     = option_map (@length LatexCommand) (emitted_commands aaba_heap [0] [[Some one_sum_stats]])
  /\ length [Some one_sum_stats] <= length [plain_column "c"]
  /\ length (provide_latex_commands
               (mkRunSet "a" "x" ([plain_column "c"] ++ [plain_column "d"]))
               [Some one_sum_stats] (new_latex_command "a" "x"))
     = length (provide_latex_commands (mkRunSet "a" "x" [plain_column "c"])
                 [Some one_sum_stats] (new_latex_command "a" "x")).
Proof.
  destruct C9_zip_truncates_without_error as [_ [R C]].
  assert (H1 : length [[Some one_sum_stats]] <= length [0]) by (simpl; lia).
  assert (H2 : length [Some one_sum_stats] <= length [plain_column "c"]) by (simpl; lia).
  split; [exact H1|]. split; [exact (R aaba_heap [0] [1; 2] _ H1)|].
  split; [exact H2|]. exact (C "a" "x" [plain_column "c"] [plain_column "d"] _ _ H2).
Defined.

(** ** Renaming object identities *)

Section Rename.
Variable f : nat -> nat.
Hypothesis f_inj : forall a b, f a = f b -> a = b.

Lemma eqb_rename (a b : nat) : Nat.eqb (f a) (f b) = Nat.eqb a b.
Proof.
  destruct (Nat.eqb a b) eqn:E.
  - apply Nat.eqb_eq in E. subst. apply Nat.eqb_refl.
  - apply Nat.eqb_neq. intros H. apply f_inj in H. apply Nat.eqb_neq in E. tauto.
Qed.

Lemma dict_set_rename {V} (d : list (nat * V)) (k : nat) (v : V) :
  dict_set (map (fun '(i, x) => (f i, x)) d) (f k) v
  = map (fun '(i, x) => (f i, x)) (dict_set d k v).
Proof.
  unfold dict_set.
  assert (E1 : existsb (fun '(k0, _) => Nat.eqb k0 (f k)) (map (fun '(i, x) => (f i, x)) d)
               = existsb (fun '(k0, _) => Nat.eqb k0 k) d).
  { induction d as [|[k0 x] d IH]; [reflexivity|]. simpl. now rewrite eqb_rename, IH. }
  rewrite E1. destruct (existsb _ d).
  - rewrite !map_map. apply map_ext. intros [k0 x].
    rewrite eqb_rename. now destruct (Nat.eqb k0 k).
  - now rewrite map_app.
Qed.

Lemma formatted_names_rename (heap heap' : nat -> RunSet) (ids : list nat) :
  (forall i, heap' (f i) = heap i) ->
  formatted_names heap' (map f ids)
  = map (fun '(i, x) => (f i, x)) (formatted_names heap ids).
Proof.
  intros Hheap. unfold formatted_names.
  change (@nil (nat * (string * string)))
    with (map (fun '(i, x) => (f i, x)) (@nil (nat * (string * string)))) at 1.
  generalize (@nil (nat * (string * string))) as d0.
  induction ids as [|a ids IH]; intros d0; [reflexivity|]. simpl.
  rewrite Hheap, dict_set_rename. apply IH.
Qed.

Lemma emitted_rename_flat_map (heap heap' : nat -> RunSet) (ids : list nat)
    (stats : list (list (option ColumnStatistics))) (ds : list (option nat)) :
  (forall i, heap' (f i) = heap i) ->
  flat_map (fun '((i, sl), d) =>
      provide_latex_commands (heap' i) sl (runset_command (names_of (heap' i)) d))
    (combine (combine (map f ids) stats) ds)
  = flat_map (fun '((i, sl), d) =>
      provide_latex_commands (heap i) sl (runset_command (names_of (heap i)) d))
    (combine (combine ids stats) ds).
Proof.
  intros Hheap. revert stats ds.
  induction ids as [|a ids IH]; intros stats ds; [reflexivity|].
  destruct stats as [|sl stats]; [reflexivity|].
  destruct ds as [|d ds]; [reflexivity|].
  simpl. now rewrite Hheap, IH.
Qed.
End Rename.

(** C8: the output depends on the run-set objects only, not on their
    identities: renaming the identities injectively gives the same writes.
    The writes are the header, then, in this order, per zipped run-set, per
    zipped column, per present statistic in field order, its kind commands in
    field order and then its unit command. *)
Theorem C8_deterministic_ordered_output :
  (forall (heap heap' : nat -> RunSet) (f : nat -> nat) ids stats,
     (forall a b, f a = f b -> a = b) -> (forall i, heap' (f i) = heap i) ->
     write_tex_command_table heap' (map f ids) stats
     = write_tex_command_table heap ids stats)
  /\ (forall heap ids stats,
        write_tex_command_table heap ids stats
        = Some (TEX_HEADER :: flat_map (fun c => [to_latex_raw c; ("%" ++ newline)%string])
            (flat_map (fun '((i, sl), d) =>
               flat_map (fun '((col, st), d') =>
                  let cmd := set_column_title (runset_command (names_of (heap i)) d)
                               (select_column_name col ++ suffix_text d') in
                  match st with
                  | None => []
                  | Some cs =>
                      flat_map (fun '(stat_name, svo) =>
                         match svo with
                         | None => []
                         | Some sv =>
                             kind_leaves (stat_command cmd stat_name) col (sv_items sv)
                             ++ unit_leaves (stat_command cmd stat_name) col
                         end) (cs_items cs)
                  end)
                 (combine (combine (columns (heap i)) sl)
                    (resolve String.eqb (map select_column_name (columns (heap i))))))
              (combine (combine ids stats)
                 (resolve_with pair_eqb
                    (counter pair_eqb (map snd (formatted_names heap ids))) (fun _ => 0)
                    (map (fun i => names_of (heap i)) ids)))))).
Proof.
  split.
  - intros heap heap' f ids stats Hinj Hheap. unfold write_tex_command_table.
    rewrite !emitted_commands_spec.
    rewrite (formatted_names_rename f Hinj heap heap' ids Hheap), map_map.
    replace (map (fun x => snd (let '(i, x0) := x in (f i, x0))) (formatted_names heap ids))
      with (map snd (formatted_names heap ids))
      by (apply map_ext; intros [? ?]; reflexivity).
    rewrite map_map.
    replace (map (fun x => names_of (heap' (f x))) ids)
      with (map (fun i => names_of (heap i)) ids)
      by (apply map_ext; intros i; now rewrite Hheap).
    now rewrite (emitted_rename_flat_map f heap heap').
  - intros heap ids stats. unfold write_tex_command_table.
    rewrite emitted_commands_spec. do 3 f_equal.
    apply flat_map_ext. intros [[i sl] d].
    rewrite provide_latex_commands_spec. apply flat_map_ext.
    intros [[col st] d']. reflexivity.
Qed.

Lemma C8_deterministic_ordered_output_witness :
  write_tex_command_table (fun i => aaba_heap (i - 10)) (map (fun i => i + 10) [0; 1; 2])
    [[Some one_sum_stats]; [Some one_sum_stats]; [Some one_sum_stats]]
  = write_tex_command_table aaba_heap [0; 1; 2]
      [[Some one_sum_stats]; [Some one_sum_stats]; [Some one_sum_stats]].
Proof.
  destruct C8_deterministic_ordered_output as [R _].
  apply (R aaba_heap (fun i => aaba_heap (i - 10)) (fun i => i + 10)).
  - intros a b H. lia.
  - intros i. f_equal. lia.
Defined.

(** * Further properties of the code *)

(** ** Helpers on strings *)

Lemma list_ascii_of_string_app (a b : string) :
  list_ascii_of_string (a ++ b) = list_ascii_of_string a ++ list_ascii_of_string b.
Proof. induction a as [|c a IH]; simpl; [reflexivity | now rewrite IH]. Qed.

Lemma string_of_list_ascii_app (a b : list ascii) :
  string_of_list_ascii (a ++ b) = (string_of_list_ascii a ++ string_of_list_ascii b)%string.
Proof. induction a as [|c a IH]; simpl; [reflexivity | now rewrite IH]. Qed.

Lemma strip_final_newline_some (s d : string) :
  strip_final_newline s = Some d -> s = (d ++ newline)%string.
Proof.
  unfold strip_final_newline. destruct (rev (list_ascii_of_string s)) as [|c r] eqn:E;
    [discriminate|].
  destruct (Ascii.eqb c (ascii_of_nat 10)) eqn:Ec; [|discriminate].
  intros H. inversion H as [Hd]; subst d. apply Ascii.eqb_eq in Ec. subst c.
  rewrite <- (string_of_list_ascii_of_string s).
  rewrite <- (rev_involutive (list_ascii_of_string s)), E. simpl.
  now rewrite string_of_list_ascii_app.
Qed.

Lemma strip_final_newline_app (d : string) :
  strip_final_newline (d ++ newline) = Some d.
Proof.
  unfold strip_final_newline. rewrite list_ascii_of_string_app. simpl.
  rewrite rev_app_distr. simpl. rewrite rev_involutive.
  now rewrite string_of_list_ascii_of_string.
Qed.

(** The pieces [re.split] gives for a string of letters followed by one
    non-letter and a rest. *)
Lemma re_split_go_letters_sep (cur s : string) (c : ascii) (t : string) :
  all_letters s = true -> is_ascii_letter c = false ->
  re_split_go cur (s ++ String c t) = (cur ++ s)%string :: re_split_go EmptyString t.
Proof.
  revert cur. induction s as [|x s IH]; intros cur Hs Hc; simpl.
  - now rewrite Hc, append_empty_r.
  - simpl in Hs. apply andb_prop in Hs as [Hx Hs]. rewrite Hx, IH by assumption.
    now rewrite <- append_assoc.
Qed.

(** Splitting and re-capitalising a sanitised string gives it back. *)
Lemma split_cap_sanitized (s : string) :
  sanitized s = true ->
  String.concat EmptyString (map cap_first_letter (re_split_nonletters s)) = s.
Proof.
  unfold sanitized. intros [Hl Hu]%andb_prop. unfold re_split_nonletters.
  rewrite (re_split_go_letters _ _ Hl). simpl.
  destruct s as [|c s]; [reflexivity|]. simpl in Hu |- *.
  now rewrite (upper_char_upper c Hu).
Qed.

Lemma all_digits19_newline (d : string) :
  all_digits19 d = true -> all_digits19 (d ++ newline) = false.
Proof.
  destruct d as [|c d]; [discriminate|]. unfold all_digits19. simpl.
  rewrite list_ascii_of_string_app, forallb_app. simpl.
  now rewrite !andb_false_r.
Qed.

(** X1: every output of the sanitiser consists of ASCII letters only and,
    when it is not empty, starts with a capital letter. *)
Theorem X_format_command_part_shape (name : string) :
  all_letters (format_command_part name) = true
  /\ upper_start (format_command_part name) = true.
Proof.
  pose proof (format_command_part_sanitized name) as H. unfold sanitized in H.
  now apply andb_prop in H.
Qed.

(** X2: sanitising an already sanitised name part changes nothing (the
    [LatexCommand] constructor sanitises the formatted names again). *)
Theorem X_format_command_part_idempotent (name : string) :
  format_command_part (format_command_part name) = format_command_part name.
Proof. apply format_command_part_fix, format_command_part_sanitized. Qed.

(** X3: a label made only of the digits 1-9 sanitises to the Roman spelling
    of its value, and so does the same label followed by one newline (the
    regex's [$] also matches before a final newline). *)
Theorem X_format_command_part_digits (d : string) :
  all_digits19 d = true ->
  format_command_part d = number_to_roman_string (decimal_value d)
  /\ format_command_part (d ++ newline) = number_to_roman_string (decimal_value d).
Proof.
  intros Hd. split.
  - unfold format_command_part, roman_subst. rewrite Hd.
    apply split_cap_sanitized, roman_sanitized.
  - unfold format_command_part, roman_subst.
    rewrite (all_digits19_newline d Hd), strip_final_newline_app, Hd.
    unfold re_split_nonletters, newline.
    pose proof (roman_sanitized (decimal_value d)) as Hr.
    unfold sanitized in Hr. apply andb_prop in Hr as [Hl Hu].
    rewrite (re_split_go_letters_sep _ _ _ _ Hl) by reflexivity. simpl.
    destruct (number_to_roman_string (decimal_value d)) as [|c r]; [reflexivity|].
    simpl in Hu |- *. rewrite (upper_char_upper c Hu). now rewrite append_empty_r.
Qed.

Lemma X_format_command_part_digits_witness :
  all_digits19 "42" = true
  /\ format_command_part "42" = "XLII"
  /\ format_command_part ("42" ++ newline) = "XLII".
Proof.
  assert (H : all_digits19 "42" = true) by reflexivity.
  destruct (X_format_command_part_digits "42" H) as [E1 E2].
  split; [exact H|]. rewrite E1, E2. split; vm_compute; reflexivity.
Defined.

(** ** Statistic names: category and subcategory *)

Lemma lower_letter_b (c : ascii) : implb (is_lower c) (is_ascii_letter c) = true.
Proof. ascii_cases c. Qed.

Lemma char_upper_idem_b (c : ascii) : Ascii.eqb (char_upper (char_upper c)) (char_upper c) = true.
Proof. ascii_cases c. Qed.

Lemma roman_subst_letter_head (c : ascii) (r : string) :
  is_ascii_letter c = true -> roman_subst (String c r) = String c r.
Proof.
  intros Hc. unfold roman_subst.
  assert (Hd : all_digits19 (String c r) = false).
  { unfold all_digits19. simpl. now rewrite (letter_not_digit c Hc). }
  rewrite Hd. destruct (strip_final_newline (String c r)) as [d|] eqn:E; [|reflexivity].
  apply strip_final_newline_some in E.
  destruct d as [|c' d]; [reflexivity|]. simpl in E. inversion E; subst c'.
  unfold all_digits19. simpl. now rewrite (letter_not_digit c Hc).
Qed.

Lemma re_split_head (cur r : string) :
  exists t ts, re_split_go cur r = t :: ts
               /\ forall c, re_split_go (String c cur) r = String c t :: ts.
Proof.
  revert cur. induction r as [|x r IH]; intros cur.
  - exists cur, []. split; reflexivity.
  - simpl. destruct (is_ascii_letter x).
    + destruct (IH (cur ++ String x EmptyString)%string) as [t [ts [E1 E2]]].
      exists t, ts. split; [exact E1|]. intros c. exact (E2 c).
    + exists cur, (re_split_go EmptyString r). split; reflexivity.
Qed.

(** Capitalising the first letter before sanitising changes nothing. *)
Lemma format_command_part_cap_first (s : string) :
  format_command_part (cap_first_letter s) = format_command_part s.
Proof.
  destruct s as [|c r]; [reflexivity|]. simpl.
  destruct (is_lower c) eqn:L.
  - assert (Hc : is_ascii_letter c = true).
    { pose proof (lower_letter_b c) as E. now rewrite L in E. }
    assert (Hu : is_ascii_letter (char_upper c) = true)
      by exact (upper_letter _ (letter_char_upper c Hc)).
    unfold format_command_part. rewrite !roman_subst_letter_head by assumption.
    unfold re_split_nonletters. simpl. rewrite Hc, Hu.
    destruct (re_split_head EmptyString r) as [t [ts [_ E2]]].
    rewrite !E2. simpl.
    pose proof (char_upper_idem_b c) as I. apply Ascii.eqb_eq in I. now rewrite I.
  - unfold char_upper. rewrite L. reflexivity.
Qed.

Lemma py_split_go_nosep (cur s : string) :
  has_no_underscore s = true -> py_split_go underscore cur s = [(cur ++ s)%string].
Proof.
  unfold has_no_underscore. revert cur.
  induction s as [|x s IH]; intros cur H; simpl in *.
  - now rewrite append_empty_r.
  - apply andb_prop in H as [Hx Hs]. apply negb_true_iff in Hx. rewrite Hx.
    rewrite IH by exact Hs. now rewrite <- append_assoc.
Qed.

Lemma py_split_go_sep (cur a b : string) :
  has_no_underscore a = true ->
  py_split_go underscore cur (a ++ String underscore b)
  = (cur ++ a)%string :: py_split_go underscore EmptyString b.
Proof.
  unfold has_no_underscore. revert cur.
  induction a as [|x a IH]; intros cur H; simpl in *.
  - now rewrite append_empty_r.
  - apply andb_prop in H as [Hx Hs]. apply negb_true_iff in Hx. rewrite Hx.
    rewrite IH by exact Hs. now rewrite <- append_assoc.
Qed.

(** X4: a statistic name without an underscore gives the sanitised name as
    category and an empty subcategory; a name [a_b] with one underscore gives
    the sanitised [a] as category and the sanitised [b] as subcategory. *)
Theorem X_stat_name_category (init : LatexCommand) :
  (forall name, has_no_underscore name = true ->
     column_category (stat_command init name) = format_command_part name
     /\ column_subcategory (stat_command init name) = EmptyString)
  /\ (forall a b, has_no_underscore a = true -> has_no_underscore b = true ->
        column_category (stat_command init (a ++ String underscore b))
          = format_command_part a
        /\ column_subcategory (stat_command init (a ++ String underscore b))
          = format_command_part b).
Proof.
  split.
  - intros name H. unfold stat_command, column_parts, py_split.
    rewrite (py_split_go_nosep _ _ H). simpl. split; [|reflexivity].
    apply format_command_part_cap_first.
  - intros a b Ha Hb. unfold stat_command, column_parts, py_split.
    rewrite (py_split_go_sep _ _ _ Ha), (py_split_go_nosep _ _ Hb). simpl.
    split; [|reflexivity]. apply format_command_part_cap_first.
Qed.

Lemma X_stat_name_category_witness :
  column_category (stat_command (new_latex_command "b" "r") "total") = "Total"
  /\ column_subcategory (stat_command (new_latex_command "b" "r") "total") = EmptyString
  /\ column_category (stat_command (new_latex_command "b" "r") ("correct" ++ String underscore "true"))
     = "Correct"
  /\ column_subcategory (stat_command (new_latex_command "b" "r") ("correct" ++ String underscore "true"))
     = "True".
Proof.
  destruct (X_stat_name_category (new_latex_command "b" "r")) as [N S].
  destruct (N "total" eq_refl) as [E1 E2].
  destruct (S "correct" "true" eq_refl eq_refl) as [E3 E4].
  rewrite E1, E2, E3, E4. repeat split; vm_compute; reflexivity.
Defined.

(** ** The name parts of every emitted command *)

Ltac cmd_sanitized_tac :=
  unfold command_sanitized in *; simpl in *;
  repeat match goal with
         | H : _ && _ = true |- _ => apply andb_prop in H as [? ?]
         end;
  repeat rewrite format_command_part_sanitized;
  repeat match goal with H : _ = true |- _ => rewrite H end; reflexivity.

Lemma kind_leaves_sanitized (cmd : LatexCommand) (col : Column)
    (items : list (string * option Q)) :
  command_sanitized cmd = true ->
  Forall (fun c => command_sanitized c = true) (kind_leaves cmd col items).
Proof.
  revert cmd. induction items as [|[k [v|]] items IH]; intros cmd H; simpl.
  - constructor.
  - assert (H' : command_sanitized (set_command_value (set_stat_type cmd k)
                   (format_value col v "csv")) = true) by cmd_sanitized_tac.
    constructor; [exact H' | now apply IH].
  - now apply IH.
Qed.

Lemma column_statistic_sanitized (cmd : LatexCommand) (st : option ColumnStatistics)
    (col : Column) :
  command_sanitized cmd = true ->
  Forall (fun c => command_sanitized c = true) (column_statistic_to_latex_command cmd st col).
Proof.
  intros H. destruct st as [cs|]; [|constructor]. simpl. apply Forall_flat_map.
  apply Forall_forall. intros [n [sv|]] _; [|constructor].
  assert (Hs : command_sanitized (stat_command cmd n) = true)
    by (unfold stat_command; cmd_sanitized_tac).
  unfold stat_leaves. apply Forall_app. split; [now apply kind_leaves_sanitized|].
  unfold unit_leaves. destruct (unit col) as [u|]; [destruct (String.eqb u _)|];
    repeat constructor.
  unfold unit_leaf. clear H. cmd_sanitized_tac.
Qed.

(** X5: every command [write_tex_command_table] emits has six name parts
    made of ASCII letters only, each empty or starting with a capital, so the
    macro name [\csname#1#2#3#4#5#6\endcsname] is letters only. *)
Theorem X_emitted_commands_sanitized (heap : nat -> RunSet) (ids : list nat)
    (stats : list (list (option ColumnStatistics))) (cs : list LatexCommand) :
  emitted_commands heap ids stats = Some cs ->
  Forall (fun c => command_sanitized c = true) cs.
Proof.
  rewrite emitted_commands_spec. intros E. inversion E as [E']. clear E E'.
  apply Forall_flat_map. apply Forall_forall. intros [[i sl] d] _.
  rewrite provide_latex_commands_spec. apply Forall_flat_map.
  apply Forall_forall. intros [[col st] d'] _.
  apply column_statistic_sanitized.
  unfold runset_command, new_latex_command. cmd_sanitized_tac.
Qed.

Lemma X_emitted_commands_sanitized_witness :
  emitted_commands hyphen_space_heap [0] [[Some one_sum_stats; Some one_sum_stats]]
  = Some [mkLatexCommand "Bench" "Tool" "AB" "Total" EmptyString "Sum" "1";
          mkLatexCommand "Bench" "Tool" "AB" "Total" EmptyString "Sum" "1"]
  /\ Forall (fun c => command_sanitized c = true)
       [mkLatexCommand "Bench" "Tool" "AB" "Total" EmptyString "Sum" "1";
        mkLatexCommand "Bench" "Tool" "AB" "Total" EmptyString "Sum" "1"].
Proof.
  assert (E : emitted_commands hyphen_space_heap [0]
                [[Some one_sum_stats; Some one_sum_stats]]
              = Some [mkLatexCommand "Bench" "Tool" "AB" "Total" EmptyString "Sum" "1";
                      mkLatexCommand "Bench" "Tool" "AB" "Total" EmptyString "Sum" "1"])
    by (vm_compute; reflexivity).
  split; [exact E | exact (X_emitted_commands_sanitized _ _ _ _ E)].
Defined.

(** ** How many commands a statistics record gives *)

Lemma kind_leaves_count (cmd : LatexCommand) (col : Column)
    (items : list (string * option Q)) :
  length (kind_leaves cmd col items) = present_kinds items.
Proof.
  unfold present_kinds. revert cmd.
  induction items as [|[k [v|]] items IH]; intros cmd; simpl; auto.
Qed.

(** X6: for a present statistics record, the walker yields, summed over the
    statistic names whose [StatValue] is present, one command per present
    kind value plus one unit command when the column's unit is non-empty. *)
Theorem X_walker_command_count (init : LatexCommand) (col : Column)
    (cs : ColumnStatistics) :
  length (column_statistic_to_latex_command init (Some cs) col)
  = expected_leaf_count col cs.
Proof.
  unfold expected_leaf_count. simpl. induction (cs_items cs) as [|[n [sv|]] items IH];
    simpl; [reflexivity| |exact IH].
  rewrite !length_app, IH. unfold stat_leaves. rewrite length_app, kind_leaves_count.
  unfold unit_leaves, unit_count. f_equal. f_equal.
  destruct (unit col) as [u|]; [destruct (String.eqb u _)|]; reflexivity.
Qed.

(** ** The resolver never gives two items the same key and suffix *)

Section ResolverDistinct.
Context {K : Type} (eqb : K -> K -> bool).
Hypothesis eqb_true : forall a b, eqb a b = true <-> a = b.

Lemma resolve_with_later (totals used : K -> nat) (ks : list K) (k : K) (d : option nat) :
  In (k, d) (combine ks (resolve_with eqb totals used ks)) ->
  d = None \/ exists m, d = Some m /\ used k < m.
Proof.
  revert used. induction ks as [|k0 ks IH]; intros used Hin; [destruct Hin|].
  simpl in Hin. destruct Hin as [Hh | Ht].
  - inversion Hh; subst k0 d. destruct (1 <? totals k); [right | left; reflexivity].
    exists (used_incr eqb used k k). split; [reflexivity|].
    unfold used_incr. rewrite (proj2 (eqb_true k k) eq_refl). lia.
  - destruct (IH _ Ht) as [Hn | [m [Hm Hlt]]]; [left; exact Hn|].
    right. exists m. split; [exact Hm|]. unfold used_incr in Hlt.
    destruct (eqb k k0) eqn:E; [apply eqb_true in E; subst k0|]; lia.
Qed.

Lemma in_counter (l : list K) (k : K) : In k l -> 1 <= counter eqb l k.
Proof.
  intros H. unfold counter.
  assert (In k (filter (eqb k) l)) by (apply filter_In; split; [exact H | now apply eqb_true]).
  destruct (filter (eqb k) l); [destruct H0 | simpl; lia].
Qed.

Lemma resolve_with_nodup (totals used : K -> nat) (ks : list K) :
  (forall k, counter eqb ks k <= totals k) ->
  NoDup (combine ks (resolve_with eqb totals used ks)).
Proof.
  revert used. induction ks as [|k ks IH]; intros used Ht; simpl; [constructor|].
  constructor.
  - intros Hin. pose proof (Ht k) as Hk.
    unfold counter in Hk. simpl in Hk. rewrite (proj2 (eqb_true k k) eq_refl) in Hk.
    simpl in Hk. destruct (1 <? totals k) eqn:E.
    + destruct (resolve_with_later _ _ _ _ _ Hin) as [Hn | [m [Hm Hlt]]];
        [discriminate|].
      inversion Hm; subst m. lia.
    + apply in_combine_l in Hin. apply in_counter in Hin.
      unfold counter in Hin. apply Nat.ltb_ge in E. lia.
  - apply IH. intros k'. pose proof (Ht k') as H'. rewrite counter_cons in H'.
    lia.
Qed.

Lemma resolve_nodup (ks : list K) : NoDup (combine ks (resolve eqb ks)).
Proof. apply resolve_with_nodup. intros k. lia. Qed.
End ResolverDistinct.

Lemma formatted_names_values (heap : nat -> RunSet) (ids : list nat) :
  NoDup ids ->
  map snd (formatted_names heap ids) = map (fun i => names_of (heap i)) ids.
Proof.
  intros Hnd. unfold formatted_names.
  pose proof (formatted_names_nodup (fun i => names_of (heap i)) [] ids Hnd) as E.
  simpl in E. rewrite E, map_map. reflexivity.
Qed.

(** X7: the decisions the code takes never give two items the same pair of
    key and decision (equal keys get distinct suffix numbers, a key left
    without suffix occurs once): always for the column titles of a run-set,
    and for the formatted name pairs of the run-set loop, whose totals come
    from [formatted_names], when the run-sets are distinct objects. *)
Theorem X_resolver_pairs_distinct :
  (forall rs : RunSet,
     NoDup (combine (map select_column_name (columns rs))
              (resolve String.eqb (map select_column_name (columns rs)))))
  /\ (forall (heap : nat -> RunSet) (ids : list nat),
        NoDup ids ->
        NoDup (combine (map (fun i => names_of (heap i)) ids)
                 (resolve_with pair_eqb (counter pair_eqb (map snd (formatted_names heap ids)))
                    (fun _ => 0) (map (fun i => names_of (heap i)) ids)))).
Proof.
  split.
  - intros rs. apply resolve_nodup, string_eqb_true.
  - intros heap ids Hnd. rewrite formatted_names_values by exact Hnd.
    apply resolve_with_nodup; [apply pair_eqb_true|]. intros k. lia.
Qed.

Lemma X_resolver_pairs_distinct_witness :
  NoDup [0; 1; 2; 3]
  /\ NoDup (combine (map (fun i => names_of (aaba_heap i)) [0; 1; 2; 3])
             (resolve_with pair_eqb
                (counter pair_eqb (map snd (formatted_names aaba_heap [0; 1; 2; 3])))
                (fun _ => 0) (map (fun i => names_of (aaba_heap i)) [0; 1; 2; 3]))).
Proof.
  assert (H : NoDup [0; 1; 2; 3]) by (repeat constructor; simpl; lia).
  split; [exact H | exact (proj2 X_resolver_pairs_distinct aaba_heap _ H)].
Defined.

(** ** Statistics with nothing present give the header only *)

Lemma flat_map_nil_in {A B : Type} (f : A -> list B) (l : list A) :
  (forall x, In x l -> f x = []) -> flat_map f l = [].
Proof.
  induction l as [|a l IH]; intros H; [reflexivity|]. simpl.
  rewrite (H a (or_introl eq_refl)), IH; [reflexivity|]. intros x Hx. apply H. now right.
Qed.

(** X8: when no statistics record that the two zips pair with a column
    of a run-set has a present [StatValue] (each such record is [None] or has
    only [None] values), the output is the header alone; surplus statistics
    lists and records are never looked at, and with no run-sets the output is
    always the header alone. *)
Theorem X_header_only_without_statistics (heap : nat -> RunSet) (ids : list nat)
    (stats : list (list (option ColumnStatistics))) :
  (forall i sl, In (i, sl) (combine ids stats) ->
   forall col st, In (col, st) (combine (columns (heap i)) sl) ->
   match st with
   | None => True
   | Some cs => Forall (fun p => snd p = None) (cs_items cs)
   end) ->
  write_tex_command_table heap ids stats = Some [TEX_HEADER].
Proof.
  intros H. unfold write_tex_command_table. rewrite emitted_commands_spec.
  rewrite (flat_map_nil_in _ (combine (combine ids stats) _)); [reflexivity|].
  intros [[i sl] d] Hin. apply in_combine_l in Hin.
  rewrite provide_latex_commands_spec. apply flat_map_nil_in.
  intros [[col st] d'] Hin'. apply in_combine_l in Hin'.
  specialize (H i sl Hin col st Hin'). destruct st as [cs|]; [|reflexivity]. simpl.
  apply flat_map_nil_in. intros [n svo] Hn. rewrite Forall_forall in H.
  specialize (H (n, svo) Hn). simpl in H. now subst svo.
Qed.

(** One run-set of one column: the second record of its list and the
    second list lie beyond the zips. *)
Lemma X_header_only_without_statistics_witness :
  (forall i sl, In (i, sl) (combine [0] [[None; Some one_sum_stats]; [Some one_sum_stats]]) ->
   forall col st, In (col, st) (combine (columns (aaba_heap i)) sl) ->
   match st with
   | None => True
   | Some cs => Forall (fun p => snd p = None) (cs_items cs)
   end)
  /\ write_tex_command_table aaba_heap [0]
       [[None; Some one_sum_stats]; [Some one_sum_stats]]
     = Some [TEX_HEADER].
Proof.
  assert (H : forall i sl,
      In (i, sl) (combine [0] [[None; Some one_sum_stats]; [Some one_sum_stats]]) ->
      forall col st, In (col, st) (combine (columns (aaba_heap i)) sl) ->
      match st with
      | None => True
      | Some cs => Forall (fun p => snd p = None) (cs_items cs)
      end).
  { intros i sl Hin col st Hin'. simpl in Hin.
    destruct Hin as [E | []]. inversion E; subst i sl. simpl in Hin'.
    destruct Hin' as [E' | []]. inversion E'; subst st. exact I. }
  split; [exact H | exact (X_header_only_without_statistics aaba_heap _ _ H)].
Defined.

(** ** Distinct run-set objects *)

(** X9: when the run-set list holds distinct objects, the run-set resolver
    is the resolver over the list of their formatted (benchmark name, run-set
    name) pairs: totals are counted over that list. *)
Theorem X_distinct_runsets_resolve (heap : nat -> RunSet) (ids : list nat)
    (stats : list (list (option ColumnStatistics))) :
  NoDup ids ->
  emitted_commands heap ids stats
  = Some (flat_map (fun '((i, sl), d) =>
             provide_latex_commands (heap i) sl (runset_command (names_of (heap i)) d))
           (combine (combine ids stats)
              (resolve pair_eqb (map (fun i => names_of (heap i)) ids)))).
Proof.
  exact (emitted_commands_distinct heap ids stats).
Qed.

Lemma X_distinct_runsets_resolve_witness :
  NoDup [0; 1; 2]
  /\ emitted_commands aaba_heap [0; 1; 2] [[Some one_sum_stats]; [Some one_sum_stats]]
     = Some (flat_map (fun '((i, sl), d) =>
                provide_latex_commands (aaba_heap i) sl
                  (runset_command (names_of (aaba_heap i)) d))
              (combine (combine [0; 1; 2] [[Some one_sum_stats]; [Some one_sum_stats]])
                 (resolve pair_eqb (map (fun i => names_of (aaba_heap i)) [0; 1; 2])))).
Proof.
  assert (H : NoDup [0; 1; 2]) by (repeat constructor; simpl; lia).
  split; [exact H | exact (X_distinct_runsets_resolve aaba_heap _ _ H)].
Defined.

(** ** The printed line determines the command *)







